(** * RoboticsProject: planar two-link arm — kinematics, path check, move loop

    Shallow embedding of [RoboticsProject.py].

    - Numbers.  Python floats are read as real numbers ([R]): arithmetic is
      exact, [math.sqrt], [math.acos], [math.atan2], [math.cos] and
      [math.sin] are the mathematical functions.  Rounding, overflow and NaN
      are outside the model.
    - Exceptions.  Every operation of the source that can raise ([/],
      [math.sqrt], [math.acos]) is fallible, through a small error monad.
    - State.  The variables the movement loop of [main] mutates ([curr_x],
      [curr_y], the canvas) are threaded through an explicit session, so
      that an exception leaves them as they were when it was raised.
    - Dialogs.  The answers given to the dialogs are inputs of [main]; the
      builtin [float] on a string is a parameter.  The canvas records the
      arm poses and the route lines; the static decoration (axes, workspace
      circles), the pacing of the frames and the message boxes themselves
      are left out. *)

From Stdlib Require Import String Ascii.
From Stdlib Require Import Reals Lra Lia List Bool.
Import ListNotations.

Open Scope R_scope.

(** ** Exceptions and the error monad *)

Inductive exn : Type :=
| ZeroDivisionError
| ValueError.

Inductive result (A : Type) : Type :=
| Ok (a : A)
| Raise (e : exn).

Arguments Ok {A} a.
Arguments Raise {A} e.

Definition bind {A B : Type} (m : result A) (k : A -> result B) : result B :=
  match m with
  | Ok a => k a
  | Raise e => Raise e
  end.

Notation "x <- m ;; k" := (bind m (fun x => k))
  (at level 61, m at next level, right associativity).

(** ** Python's numeric primitives on reals *)

Module Py.

(** Comparison operators, as booleans. *)
Definition lt (a b : R) : bool := if Rlt_dec a b then true else false.
Definition gt (a b : R) : bool := if Rgt_dec a b then true else false.
Definition eq (a b : R) : bool := if Req_dec_T a b then true else false.

(** [a / b] raises [ZeroDivisionError] on a zero divisor. *)
Definition div (a b : R) : result R :=
  if Req_dec_T b 0 then Raise ZeroDivisionError else Ok (a / b).

(** [math.sqrt] raises [ValueError] on a negative argument. *)
Definition sqrt (a : R) : result R :=
  if Rlt_dec a 0 then Raise ValueError else Ok (R_sqrt.sqrt a).

(** [math.acos] raises [ValueError] outside [[-1, 1]]. *)
Definition acos (a : R) : result R :=
  if Rlt_dec a (-1) then Raise ValueError
  else if Rgt_dec a 1 then Raise ValueError
  else Ok (Ratan.acos a).

(** The builtin two-argument [min] and [max]: the first argument is kept
    unless the second is strictly smaller (resp. larger). *)
Definition min (a b : R) : R := if lt b a then b else a.
Definition max (a b : R) : R := if gt b a then b else a.

(** [math.atan2 y x]: the polar angle of [(x, y)], in [(-PI, PI]]. *)
Definition atan2 (y x : R) : R :=
  if Rlt_dec 0 x then atan (y / x)
  else if Rlt_dec x 0 then
    if Rle_dec 0 y then atan (y / x) + PI else atan (y / x) - PI
  else if Rlt_dec 0 y then PI / 2
  else if Rlt_dec y 0 then - (PI / 2)
  else 0.

End Py.

(** ** Helper functions of the source *)

(** [inverse_kinematics(x, y, l1, l2, left_mode)]: [None] when the point is
    out of range, otherwise the elbow position. *)
Definition inverse_kinematics (x y l1 l2 : R) (left_mode : bool)
  : result (option (R * R)) :=
  dist <- Py.sqrt (x ^ 2 + y ^ 2) ;;
  if Py.gt dist (l1 + l2) || Py.lt dist (Rabs (l1 - l2)) || Py.eq dist 0
  then Ok None
  else
    cos_angle <- Py.div (l1 ^ 2 + dist ^ 2 - l2 ^ 2) (2 * l1 * dist) ;;
    let cos_angle := Py.max (-1) (Py.min 1 cos_angle) in
    alpha <- Py.acos cos_angle ;;
    let theta := Py.atan2 y x in
    let q1 := if left_mode then theta + alpha else theta - alpha in
    let elbow_x := l1 * cos q1 in
    let elbow_y := l1 * sin q1 in
    Ok (Some (elbow_x, elbow_y)).

(** The body of the [for i in range(steps + 1)] loop of [check_path], run
    over the remaining indices; [false] as soon as a sample is too close. *)
Fixpoint check_path_loop (x1 y1 x2 y2 min_r : R) (steps : nat) (range : list nat)
  : result bool :=
  match range with
  | [] => Ok true
  | i :: range' =>
      t <- Py.div (INR i) (INR steps) ;;
      let px := x1 + (x2 - x1) * t in
      let py := y1 + (y2 - y1) * t in
      d <- Py.sqrt (px ^ 2 + py ^ 2) ;;
      if Py.lt d (min_r - 1) then Ok false
      else check_path_loop x1 y1 x2 y2 min_r steps range'
  end.

(** [check_path(x1, y1, x2, y2, l1, l2)]. *)
Definition check_path (x1 y1 x2 y2 l1 l2 : R) : result bool :=
  let min_r := Rabs (l1 - l2) in
  let steps := 40%nat in
  check_path_loop x1 y1 x2 y2 min_r steps (seq 0 (steps + 1)).

(** ** Window settings and the coordinate transform *)

Definition WIDTH : R := 800.
Definition HEIGHT : R := 600.
Definition CX : R := WIDTH / 2.
Definition CY : R := HEIGHT / 2.

(** [to_screen(x, y)]. *)
Definition to_screen (x y : R) : R * R := (CX + x, CY - y).

(** ** The movement loop of [main] *)

(** What the loop puts on the canvas: the red route line of a move and the
    coordinates given to [link1], [link2] and [joint] at each frame. *)
Inductive draw : Type :=
| RouteLine (sx sy fx fy : R)
| ArmFrame (scr_ex scr_ey scr_tx scr_ty : R).

(** The variables that survive one iteration of [while True]. *)
Record session : Type := mkSession {
  curr_x : R;
  curr_y : R;
  canvas : list draw
}.

(** The three [messagebox.showerror] calls of the loop, and a silent
    completion. *)
Inductive report : Type :=
| OutOfRange
| PathBlocked
| IncorrectFormat
| Completed.

(** A computation over the session that may raise: on an exception the
    session is the one reached when it was raised. *)
Inductive outcome (A : Type) : Type :=
| Done (a : A) (s : session)
| Raised (e : exn) (s : session).

Arguments Done {A} a s.
Arguments Raised {A} e s.

Definition M (A : Type) : Type := session -> outcome A.

Definition ret {A : Type} (a : A) : M A := fun s => Done a s.

Definition bindM {A B : Type} (m : M A) (k : A -> M B) : M B :=
  fun s =>
    match m s with
    | Done a s' => k a s'
    | Raised e s' => Raised e s'
    end.

Definition lift {A : Type} (r : result A) : M A :=
  fun s =>
    match r with
    | Ok a => Done a s
    | Raise e => Raised e s
    end.

Definition get : M session := fun s => Done s s.
Definition put (s' : session) : M unit := fun _ => Done tt s'.

Notation "x <~ m ;; k" := (bindM m (fun x => k))
  (at level 61, m at next level, right associativity).
Notation "m ;;; k" := (bindM m (fun _ => k))
  (at level 61, right associativity).

(** One pass of the body of [for _ in range(steps)]. *)
Definition animate_step (L1 L2 : R) (is_left : bool) (dx dy : R) : M unit :=
  s <~ get ;;
  let cx := curr_x s + dx in
  let cy := curr_y s + dy in
  put (mkSession cx cy (canvas s)) ;;;
  res <~ lift (inverse_kinematics cx cy L1 L2 is_left) ;;
  match res with
  | Some (ex_new, ey_new) =>
      let '(scr_ex, scr_ey) := to_screen ex_new ey_new in
      let '(scr_tx, scr_ty) := to_screen cx cy in
      put (mkSession cx cy (canvas s ++ [ArmFrame scr_ex scr_ey scr_tx scr_ty]))
  | None => ret tt
  end.

(** The animation loop, [n] passes. *)
Fixpoint animate (L1 L2 : R) (is_left : bool) (dx dy : R) (n : nat) : M unit :=
  match n with
  | O => ret tt
  | S n' =>
      animate_step L1 L2 is_left dx dy ;;;
      animate L1 L2 is_left dx dy n'
  end.

(** The body of the [try] block for a parsed target [(nx, ny)]. *)
Definition move_body (L1 L2 : R) (is_left : bool) (nx ny : R) : M report :=
  res <~ lift (inverse_kinematics nx ny L1 L2 is_left) ;;
  match res with
  | None => ret OutOfRange
  | Some _ =>
      s <~ get ;;
      clear <~ lift (check_path (curr_x s) (curr_y s) nx ny L1 L2) ;;
      if negb clear then ret PathBlocked
      else
        let steps := 40%nat in
        dx <~ lift (Py.div (nx - curr_x s) (INR steps)) ;;
        dy <~ lift (Py.div (ny - curr_y s) (INR steps)) ;;
        let '(sx, sy) := to_screen (curr_x s) (curr_y s) in
        let '(fx, fy) := to_screen nx ny in
        put (mkSession (curr_x s) (curr_y s) (canvas s ++ [RouteLine sx sy fx fy])) ;;;
        animate L1 L2 is_left dx dy steps ;;;
        s' <~ get ;;
        put (mkSession nx ny (canvas s')) ;;;
        ret Completed
  end.

(** One iteration of the loop for a parsed target: [except ValueError]
    reports and lets the loop go on; any other exception leaves [main]. *)
Inductive iteration : Type :=
| Continue (r : report) (s : session)
| Abort (e : exn) (s : session).

Definition move_request (L1 L2 : R) (is_left : bool) (nx ny : R) (s : session)
  : iteration :=
  match move_body L1 L2 is_left nx ny s with
  | Done r s' => Continue r s'
  | Raised ValueError s' => Continue IncorrectFormat s'
  | Raised e s' => Abort e s'
  end.

(** ** The dialogs of [main] *)

(** [s.split(sep)] for a one-character separator: the pieces between the
    separators, at least one piece. *)
Fixpoint split_on (sep : ascii) (s : string) : list string :=
  match s with
  | EmptyString => [EmptyString]
  | String c rest =>
      if Ascii.eqb c sep then EmptyString :: split_on sep rest
      else
        match split_on sep rest with
        | part :: parts => String c part :: parts
        | [] => [String c EmptyString]
        end
  end.

(** What the two [float(parts[i])] of line 137 can come to: the target, a
    [ValueError] of [float], or the [IndexError] of [parts[1]]. *)
Inductive parsed : Type :=
| Target (nx ny : R)
| BadNumber
| MissingField.

(** How a run of [main] can end.  [Pending]: the movement dialog is open and
    no further answer is given. *)
Inductive uncaught : Type :=
| Arithmetic (e : exn)
| IndexError.

Inductive ending : Type :=
| SetupAborted
| StartImpossible
| StartCrashed (e : exn)
| Closed (s : session) (log : list report)
| Crashed (u : uncaught) (s : session) (log : list report)
| Pending (s : session) (log : list report).

Section Dialogs.

(** The builtin [float] on a string: [None] stands for its [ValueError]. *)
Variable py_float : string -> option R.


(** Lines 136-137, in evaluation order: [float(parts[0])] comes before
    [parts[1]]. *)
Definition parse_target (target_str : string) : parsed :=
  let parts := split_on ","%char target_str in
  match nth_error parts 0 with
  | None => MissingField
  | Some p0 =>
      match py_float p0 with
      | None => BadNumber
      | Some nx =>
          match nth_error parts 1 with
          | None => MissingField
          | Some p1 =>
              match py_float p1 with
              | None => BadNumber
              | Some ny => Target nx ny
              end
          end
      end
  end.

(** The [while True] loop over the answers given to the movement dialog;
    [log] collects the outcome of each request. *)
Fixpoint movement_loop (L1 L2 : R) (is_left : bool)
  (answers : list (option string)) (s : session) (log : list report) : ending :=
  match answers with
  | [] => Pending s log
  | None :: _ => Closed s log
  | Some target_str :: answers' =>
      if String.eqb target_str EmptyString then Closed s log
      else
        match parse_target target_str with
        | MissingField => Crashed IndexError s log
        | BadNumber =>
            movement_loop L1 L2 is_left answers' s (log ++ [IncorrectFormat])
        | Target nx ny =>
            match move_request L1 L2 is_left nx ny s with
            | Continue r s' => movement_loop L1 L2 is_left answers' s' (log ++ [r])
            | Abort e s' => Crashed (Arithmetic e) s' log
            end
        end
  end.


End Dialogs.


(** ** Poses on the canvas *)




(** ** Intermediate values of the solver, named for the statements *)

(** [dist] of [inverse_kinematics]. *)
Definition distance (x y : R) : R := sqrt (x ^ 2 + y ^ 2).

(** The guard of line 26, as a proposition. *)
Definition out_of_range (x y l1 l2 : R) : Prop :=
  distance x y > l1 + l2 \/ distance x y < Rabs (l1 - l2) \/ distance x y = 0.

(** The clamp of line 34. *)
Definition clamp (c : R) : R := Py.max (-1) (Py.min 1 c).

(** [cos_angle] before the clamp, [alpha] and [theta]. *)
Definition law_of_cosines (x y l1 l2 : R) : R :=
  (l1 ^ 2 + distance x y ^ 2 - l2 ^ 2) / (2 * l1 * distance x y).

Definition alpha_of (x y l1 l2 : R) : R :=
  acos (clamp (law_of_cosines x y l1 l2)).

Definition theta_of (x y : R) : R := Py.atan2 y x.

(** The [i]-th sample of [check_path]. *)
Definition sample (x1 y1 x2 y2 : R) (i : nat) : R * R :=
  (x1 + (x2 - x1) * (INR i / 40), y1 + (y2 - y1) * (INR i / 40)).

(** The test of line 63, negated: the sample is not rejected. *)
Definition clears (min_r : R) (p : R * R) : bool :=
  negb (Py.lt (distance (fst p) (snd p)) (min_r - 1)).


(** * Properties *)

(** ** The numeric primitives *)

(** Goals about [Rabs] of a difference: split on its sign. *)
Ltac split_abs :=
  unfold Rabs in *;
  repeat match goal with
         | |- context [Rcase_abs ?a] => destruct (Rcase_abs a)
         | H : context [Rcase_abs ?a] |- _ => destruct (Rcase_abs a)
         end;
  lra.

Lemma lt_true (a b : R) : Py.lt a b = true <-> a < b.
Proof. unfold Py.lt; destruct (Rlt_dec a b); split; intros; congruence || auto. Qed.

Lemma gt_true (a b : R) : Py.gt a b = true <-> a > b.
Proof. unfold Py.gt; destruct (Rgt_dec a b); split; intros; congruence || auto. Qed.

Lemma eq_true (a b : R) : Py.eq a b = true <-> a = b.
Proof. unfold Py.eq; destruct (Req_dec_T a b); split; intros; congruence || auto. Qed.

Lemma lt_false (a b : R) : Py.lt a b = false <-> b <= a.
Proof.
  unfold Py.lt; destruct (Rlt_dec a b); split; intros; try congruence; lra.
Qed.

Lemma sum_squares_nonneg (x y : R) : 0 <= x ^ 2 + y ^ 2.
Proof. nra. Qed.

Lemma sqrt_sum_squares (x y : R) : Py.sqrt (x ^ 2 + y ^ 2) = Ok (distance x y).
Proof.
  unfold Py.sqrt, distance.
  destruct (Rlt_dec (x ^ 2 + y ^ 2) 0) as [Hneg | _]; [| reflexivity].
  pose proof (sum_squares_nonneg x y); lra.
Qed.

Lemma distance_nonneg (x y : R) : 0 <= distance x y.
Proof. apply sqrt_pos. Qed.

Lemma distance_sqr (x y : R) : distance x y ^ 2 = x ^ 2 + y ^ 2.
Proof. unfold distance; apply pow2_sqrt, sum_squares_nonneg. Qed.

Lemma distance_origin : distance 0 0 = 0.
Proof.
  unfold distance. replace (0 ^ 2 + 0 ^ 2) with 0 by ring. apply sqrt_0.
Qed.

Lemma div_nonzero (a b : R) : b <> 0 -> Py.div a b = Ok (a / b).
Proof. intros Hb; unfold Py.div; destruct (Req_dec_T b 0); congruence. Qed.

Lemma clamp_cases (c : R) :
  (c < -1 /\ clamp c = -1) \/ (-1 <= c <= 1 /\ clamp c = c) \/ (1 < c /\ clamp c = 1).
Proof.
  unfold clamp, Py.max, Py.min, Py.gt, Py.lt.
  destruct (Rlt_dec c 1) as [H1 | H1].
  - destruct (Rgt_dec c (-1)) as [H2 | H2].
    + right; left; split; [lra | reflexivity].
    + destruct (Req_dec_T c (-1)) as [-> | Hne].
      * right; left; split; [lra | reflexivity].
      * left; split; [lra | reflexivity].
  - destruct (Rgt_dec 1 (-1)) as [_ | H2]; [| lra].
    destruct (Req_dec_T c 1) as [-> | Hne].
    + right; left; split; [lra | reflexivity].
    + right; right; split; [lra | reflexivity].
Qed.

Lemma clamp_bounds (c : R) : -1 <= clamp c <= 1.
Proof.
  destruct (clamp_cases c) as [[? ->] | [[? ->] | [? ->]]]; lra.
Qed.

Lemma clamp_in_range (c : R) : -1 <= c <= 1 -> clamp c = c.
Proof.
  intros Hc; destruct (clamp_cases c) as [[? ?] | [[? ?] | [? ?]]]; auto; lra.
Qed.

Lemma acos_clamp (c : R) : Py.acos (clamp c) = Ok (acos (clamp c)).
Proof.
  pose proof (clamp_bounds c) as [Hlo Hhi].
  unfold Py.acos.
  destruct (Rlt_dec (clamp c) (-1)); [lra |].
  destruct (Rgt_dec (clamp c) 1); [lra | reflexivity].
Qed.

(** ** The solver, case by case *)

Section Solver.

Variables (x y l1 l2 : R) (left_mode : bool).

Lemma guard_true :
  Py.gt (distance x y) (l1 + l2) || Py.lt (distance x y) (Rabs (l1 - l2))
    || Py.eq (distance x y) 0 = true
  <-> out_of_range x y l1 l2.
Proof.
  unfold out_of_range.
  rewrite !orb_true_iff, gt_true, lt_true, eq_true. tauto.
Qed.

Lemma guard_false :
  Py.gt (distance x y) (l1 + l2) || Py.lt (distance x y) (Rabs (l1 - l2))
    || Py.eq (distance x y) 0 = false
  <-> ~ out_of_range x y l1 l2.
Proof.
  rewrite <- guard_true. destruct (_ || _ || _); split; congruence.
Qed.

Lemma out_of_range_dec : {out_of_range x y l1 l2} + {~ out_of_range x y l1 l2}.
Proof.
  destruct (Py.gt (distance x y) (l1 + l2) || Py.lt (distance x y) (Rabs (l1 - l2))
            || Py.eq (distance x y) 0) eqn:E.
  - left; now apply guard_true.
  - right; now apply guard_false.
Qed.

(** Out of range: the early [return None]. *)
Lemma inverse_kinematics_none :
  out_of_range x y l1 l2 ->
  inverse_kinematics x y l1 l2 left_mode = Ok None.
Proof.
  intros H. unfold inverse_kinematics.
  rewrite sqrt_sum_squares; cbn [bind].
  apply guard_true in H. now rewrite H.
Qed.

(** In range, with a non-zero first link: the elbow of lines 46-48. *)
Lemma inverse_kinematics_some :
  l1 <> 0 ->
  ~ out_of_range x y l1 l2 ->
  let q1 := if left_mode then theta_of x y + alpha_of x y l1 l2
            else theta_of x y - alpha_of x y l1 l2 in
  inverse_kinematics x y l1 l2 left_mode = Ok (Some (l1 * cos q1, l1 * sin q1)).
Proof.
  intros Hl1 H q1. unfold inverse_kinematics.
  rewrite sqrt_sum_squares; cbn [bind].
  assert (Hd : distance x y <> 0) by (intros E; apply H; right; right; exact E).
  apply guard_false in H. rewrite H.
  rewrite div_nonzero by (apply Rmult_integral_contrapositive_currified;
                          [apply Rmult_integral_contrapositive_currified; lra | exact Hd]).
  cbn [bind]. fold (law_of_cosines x y l1 l2). fold (clamp (law_of_cosines x y l1 l2)).
  rewrite acos_clamp; cbn [bind].
  reflexivity.
Qed.

(** In range with [l1 = 0]: the division of line 31 raises. *)
Lemma inverse_kinematics_zero_link :
  l1 = 0 ->
  ~ out_of_range x y l1 l2 ->
  inverse_kinematics x y l1 l2 left_mode = Raise ZeroDivisionError.
Proof.
  intros Hl1 H. unfold inverse_kinematics.
  rewrite sqrt_sum_squares; cbn [bind].
  apply guard_false in H. rewrite H.
  unfold Py.div. destruct (Req_dec_T (2 * l1 * distance x y) 0) as [_ | Hne].
  - reflexivity.
  - exfalso; apply Hne; subst l1; ring.
Qed.

End Solver.

(** ** Distances on the x axis, for concrete runs *)

Lemma distance_x_axis (x : R) : 0 <= x -> distance x 0 = x.
Proof.
  intros Hx. unfold distance.
  replace (x ^ 2 + 0 ^ 2) with (x ^ 2) by ring.
  now apply sqrt_pow2.
Qed.

Lemma in_range_x_axis (x l1 l2 : R) :
  0 < x -> Rabs (l1 - l2) <= x <= l1 + l2 -> ~ out_of_range x 0 l1 l2.
Proof.
  intros Hx [Hlo Hhi]. unfold out_of_range.
  rewrite distance_x_axis by lra. lra.
Qed.


(** The running example: links 1 and 2, target [(2, 0)]. *)
Lemma example_in_range : ~ out_of_range 2 0 1 2.
Proof. apply in_range_x_axis; [lra | split_abs]. Qed.

(** ** Reachability (C1, C6) *)






(** ** No exception escapes the solver (C7) *)

(** The solver never raises [ValueError], whatever the lengths. *)
Lemma inverse_kinematics_no_value_error (x y l1 l2 : R) (left_mode : bool) :
  inverse_kinematics x y l1 l2 left_mode <> Raise ValueError.
Proof.
  destruct (out_of_range_dec x y l1 l2) as [H | H].
  - rewrite inverse_kinematics_none by exact H. discriminate.
  - destruct (Req_dec_T l1 0) as [Hz | Hnz].
    + rewrite inverse_kinematics_zero_link by assumption. discriminate.
    + rewrite inverse_kinematics_some by assumption. discriminate.
Qed.



(** ** The elbow lies on the first link's circle (C10) *)



(** ** Handedness (C4) *)











(** ** The path validator (C2, C5, C9) *)

Lemma INR_40 : INR 40 = 40.
Proof. rewrite INR_IZR_INZ. reflexivity. Qed.

(** The loop is a conjunction over the indices it is run on. *)
Lemma check_path_loop_forallb (x1 y1 x2 y2 min_r : R) (range : list nat) :
  check_path_loop x1 y1 x2 y2 min_r 40 range
  = Ok (forallb (fun i => clears min_r (sample x1 y1 x2 y2 i)) range).
Proof.
  induction range as [| i range IH]; [reflexivity |].
  cbn [check_path_loop forallb].
  rewrite div_nonzero by (rewrite INR_40; lra). cbn [bind].
  rewrite sqrt_sum_squares. cbn [bind].
  unfold clears at 1, sample at 1. cbn [fst snd]. rewrite INR_40.
  destruct (Py.lt _ _); [reflexivity | exact IH].
Qed.

Lemma check_path_forallb (x1 y1 x2 y2 l1 l2 : R) :
  check_path x1 y1 x2 y2 l1 l2
  = Ok (forallb (fun i => clears (Rabs (l1 - l2)) (sample x1 y1 x2 y2 i)) (seq 0 41)).
Proof. unfold check_path. apply check_path_loop_forallb. Qed.

Lemma clears_true (min_r : R) (p : R * R) :
  clears min_r p = true <-> distance (fst p) (snd p) >= min_r - 1.
Proof.
  unfold clears. rewrite negb_true_iff, lt_false. split; lra.
Qed.

(** A dead zone of radius at most 1 rejects nothing. *)
Lemma check_path_small_dead_zone (x1 y1 x2 y2 l1 l2 : R) :
  Rabs (l1 - l2) <= 1 -> check_path x1 y1 x2 y2 l1 l2 = Ok true.
Proof.
  intros Hr. rewrite check_path_forallb. f_equal.
  apply forallb_forall. intros i _. apply clears_true.
  pose proof (distance_nonneg (fst (sample x1 y1 x2 y2 i)) (snd (sample x1 y1 x2 y2 i))).
  lra.
Qed.


(** C5, as stated, fails: with equal links the threshold is [-1] and no
    distance is below it, so the move through the origin is accepted. *)
Lemma through_origin_counterexample :
  Rabs (100 - 100) = 0 /\
  check_path 150 0 (-150) 0 100 100 <> Ok false.
Proof.
  assert (H0 : Rabs (100 - 100) = 0)
    by (replace (100 - 100) with 0 by ring; apply Rabs_R0).
  split; [exact H0 |].
  rewrite check_path_small_dead_zone by lra. discriminate.
Qed.

(** C5, amended.  With [l1 = l2 = 100] the validator accepts the move from
    [(150, 0)] to [(-150, 0)]: it returns [true]. *)
Theorem through_origin_accepted :
  check_path 150 0 (-150) 0 100 100 = Ok true.
Proof.
  apply check_path_small_dead_zone.
  replace (100 - 100) with 0 by ring. rewrite Rabs_R0. lra.
Qed.

(** C9.  For [l1, l2 > 0] and a point in range, the zero-length move from
    the point to itself is accepted. *)
Theorem zero_length_move_clear (x y l1 l2 : R)
  (Hl1 : 0 < l1) (Hl2 : 0 < l2) (Hin : ~ out_of_range x y l1 l2) :
  check_path x y x y l1 l2 = Ok true.
Proof.
  rewrite check_path_forallb. f_equal.
  apply forallb_forall. intros i _. apply clears_true.
  unfold sample; cbn [fst snd].
  replace (x + (x - x) * (INR i / 40)) with x by ring.
  replace (y + (y - y) * (INR i / 40)) with y by ring.
  unfold out_of_range in Hin. lra.
Qed.

Lemma zero_length_move_clear_witness :
  0 < 1 /\ 0 < 2 /\ ~ out_of_range 2 0 1 2 /\
  check_path 2 0 2 0 1 2 = Ok true.
Proof.
  pose proof example_in_range as Hin.
  split; [lra | split; [lra | split; [exact Hin |]]].
  apply (zero_length_move_clear 2 0 1 2); [lra | lra | exact Hin].
Defined.

(** ** The movement loop (C3) *)

Section Movement.

Variables (L1 L2 : R) (is_left : bool).




(** Whatever the links, the only exception a frame can raise is the
    division by zero of the solver. *)
Lemma animate_step_raises (dx dy : R) (s s' : session) (e : exn) :
  animate_step L1 L2 is_left dx dy s = Raised e s' -> e = ZeroDivisionError.
Proof.
  unfold animate_step, bindM, get, put, lift, ret.
  pose proof (inverse_kinematics_no_value_error
                (curr_x s + dx) (curr_y s + dy) L1 L2 is_left) as Hno.
  destruct (inverse_kinematics _ _ L1 L2 is_left) as [[[ex ey] |] | e0];
    cbn; intros E; try discriminate.
  injection E as <- _. destruct e0; [reflexivity | contradiction].
Qed.

Lemma animate_raises (dx dy : R) (n : nat) (s s' : session) (e : exn) :
  animate L1 L2 is_left dx dy n s = Raised e s' -> e = ZeroDivisionError.
Proof.
  revert s. induction n as [| n IH]; intros s; cbn [animate].
  - discriminate.
  - unfold bindM at 1.
    destruct (animate_step L1 L2 is_left dx dy s) as [[] s1 | e1 s1] eqn:E1.
    + apply IH.
    + intros E. injection E as <- _. eapply animate_step_raises, E1.
Qed.

(** The [try] block, with its sequencing spelled out. *)
Lemma move_body_unfold (nx ny : R) (s : session) :
  move_body L1 L2 is_left nx ny s =
  match inverse_kinematics nx ny L1 L2 is_left with
  | Raise e => Raised e s
  | Ok None => Done OutOfRange s
  | Ok (Some _) =>
      match check_path (curr_x s) (curr_y s) nx ny L1 L2 with
      | Raise e => Raised e s
      | Ok false => Done PathBlocked s
      | Ok true =>
          match animate L1 L2 is_left
                  ((nx - curr_x s) / INR 40) ((ny - curr_y s) / INR 40) 40
                  (mkSession (curr_x s) (curr_y s)
                     (canvas s ++ [RouteLine (CX + curr_x s) (CY - curr_y s)
                                             (CX + nx) (CY - ny)])) with
          | Done _ s' => Done Completed (mkSession nx ny (canvas s'))
          | Raised e s' => Raised e s'
          end
      end
  end.
Proof.
  unfold move_body, bindM, lift, get, put, ret, to_screen.
  destruct (inverse_kinematics nx ny L1 L2 is_left) as [[elbow |] | e];
    try reflexivity.
  destruct (check_path (curr_x s) (curr_y s) nx ny L1 L2) as [[|] | e];
    try reflexivity.
  cbn [negb]. rewrite !div_nonzero by (rewrite INR_40; lra).
  reflexivity.
Qed.


End Movement.




(** Whatever the links, the [except ValueError] branch is never taken for
    a parsed target: no move is abandoned half-way with a moved position. *)
Lemma move_request_never_incorrect_format
  (L1 L2 : R) (is_left : bool) (nx ny : R) (s s' : session) :
  move_request L1 L2 is_left nx ny s <> Continue IncorrectFormat s'.
Proof.
  unfold move_request. rewrite move_body_unfold.
  pose proof (inverse_kinematics_no_value_error nx ny L1 L2 is_left) as Hno.
  destruct (inverse_kinematics nx ny L1 L2 is_left) as [[elbow |] | []];
    try discriminate; try contradiction.
  rewrite check_path_forallb.
  destruct (forallb _ _); [| discriminate].
  destruct (animate L1 L2 is_left _ _ 40 _) as [[] s1 | e s1] eqn:E;
    [discriminate |].
  apply animate_raises in E. subst e. discriminate.
Qed.


(** ** The solved elbow reaches the target, in exact arithmetic *)

Lemma sqrt_one_plus_ratio (x y : R) :
  x <> 0 -> sqrt (1 + (y / x)²) = distance x y / Rabs x.
Proof.
  intros Hx.
  assert (Hax : 0 < Rabs x) by now apply Rabs_pos_lt.
  assert (Hsq : Rabs x * Rabs x = x * x)
    by (unfold Rabs; destruct (Rcase_abs x); ring).
  pose proof (distance_nonneg x y) as Hd.
  pose proof (distance_sqr x y) as Hd2.
  apply sqrt_lem_1.
  - unfold Rsqr. nra.
  - apply Rmult_le_pos; [exact Hd | left; now apply Rinv_0_lt_compat].
  - unfold Rsqr.
    replace (distance x y / Rabs x * (distance x y / Rabs x))
      with (distance x y ^ 2 / (Rabs x * Rabs x)) by (field; lra).
    rewrite Hd2, Hsq. field. exact Hx.
Qed.

(** [theta] is the polar angle of the target. *)
Lemma atan2_polar (x y : R) :
  distance x y <> 0 ->
  x = distance x y * cos (Py.atan2 y x) /\ y = distance x y * sin (Py.atan2 y x).
Proof.
  intros Hd. unfold Py.atan2.
  destruct (Rlt_dec 0 x) as [Hpos | Hnpos].
  - rewrite cos_atan, sin_atan, sqrt_one_plus_ratio by lra.
    rewrite Rabs_pos_eq by lra. split; field; lra.
  - destruct (Rlt_dec x 0) as [Hneg | Hnneg].
    + assert (Hax : Rabs x = - x) by (apply Rabs_left; exact Hneg).
      destruct (Rle_dec 0 y).
      * rewrite neg_cos, neg_sin, cos_atan, sin_atan, sqrt_one_plus_ratio by lra.
        rewrite Hax. split; field; lra.
      * rewrite cos_minus, sin_minus, cos_PI, sin_PI.
        rewrite cos_atan, sin_atan, sqrt_one_plus_ratio by lra.
        rewrite Hax. split; field; lra.
    + assert (Hx : x = 0) by lra. subst x.
      assert (Hy : distance 0 y = Rabs y).
      { unfold distance. replace (0 ^ 2 + y ^ 2) with (Rsqr y) by (unfold Rsqr; ring).
        apply sqrt_Rsqr_abs. }
      destruct (Rlt_dec 0 y) as [Hyp | Hynp].
      * rewrite cos_PI2, sin_PI2, Hy, Rabs_pos_eq by lra. split; ring.
      * destruct (Rlt_dec y 0) as [Hyn | Hynn].
        -- rewrite cos_neg, sin_neg, cos_PI2, sin_PI2, Hy, Rabs_left by lra.
           split; ring.
        -- exfalso. apply Hd. assert (y = 0) by lra. subst y. apply distance_origin.
Qed.

(** In range, with positive links, the law-of-cosines value is a cosine:
    the clamp leaves it alone. *)
Lemma law_of_cosines_bounds (x y l1 l2 : R) :
  0 < l1 -> 0 < l2 -> ~ out_of_range x y l1 l2 ->
  -1 <= law_of_cosines x y l1 l2 <= 1.
Proof.
  intros Hl1 Hl2 Hin. unfold out_of_range in Hin. unfold law_of_cosines.
  pose proof (distance_nonneg x y) as Hd.
  set (d := distance x y) in *.
  assert (Hdpos : 0 < d) by lra.
  assert (Hlo : Rabs (l1 - l2) <= d) by lra.
  assert (Hhi : d <= l1 + l2) by lra.
  assert (Hfold : l1 - l2 <= d /\ l2 - l1 <= d) by (clear - Hlo; split_abs).
  assert (HD : 0 < 2 * l1 * d) by nra.
  split.
  - apply Rmult_le_reg_r with (2 * l1 * d); [exact HD |].
    replace ((l1 ^ 2 + d ^ 2 - l2 ^ 2) / (2 * l1 * d) * (2 * l1 * d))
      with (l1 ^ 2 + d ^ 2 - l2 ^ 2) by (field; lra).
    nra.
  - apply Rmult_le_reg_r with (2 * l1 * d); [exact HD |].
    replace ((l1 ^ 2 + d ^ 2 - l2 ^ 2) / (2 * l1 * d) * (2 * l1 * d))
      with (l1 ^ 2 + d ^ 2 - l2 ^ 2) by (field; lra).
    nra.
Qed.

(** The second link fits: the returned elbow is at distance exactly [l2]
    from the target. *)
Lemma elbow_to_target (x y l1 l2 : R) (left_mode : bool) (ex ey : R) :
  0 < l1 -> 0 < l2 ->
  inverse_kinematics x y l1 l2 left_mode = Ok (Some (ex, ey)) ->
  (x - ex) ^ 2 + (y - ey) ^ 2 = l2 ^ 2.
Proof.
  intros Hl1 Hl2 Hsolve.
  destruct (out_of_range_dec x y l1 l2) as [H | Hin].
  { rewrite inverse_kinematics_none in Hsolve by exact H. discriminate. }
  rewrite inverse_kinematics_some in Hsolve by (lra || assumption).
  assert (Hd : distance x y <> 0) by (intros E; apply Hin; right; right; exact E).
  destruct (atan2_polar x y Hd) as [Hx Hy].
  pose proof (law_of_cosines_bounds x y l1 l2 Hl1 Hl2 Hin) as Hc.
  assert (Hcos : cos (alpha_of x y l1 l2) = law_of_cosines x y l1 l2).
  { unfold alpha_of. rewrite clamp_in_range by exact Hc. now apply cos_acos. }
  assert (Hlaw : 2 * l1 * distance x y * law_of_cosines x y l1 l2
                 = l1 ^ 2 + distance x y ^ 2 - l2 ^ 2).
  { unfold law_of_cosines. field. lra. }
  fold (theta_of x y) in Hx, Hy.
  set (t := theta_of x y) in *. set (a := alpha_of x y l1 l2) in *.
  set (d := distance x y) in *. set (c := law_of_cosines x y l1 l2) in *.
  pose proof (sin2_cos2 t) as Ht. pose proof (sin2_cos2 a) as Ha.
  unfold Rsqr in Ht, Ha.
  injection Hsolve as <- <-.
  rewrite Hx at 1. rewrite Hy at 1.
  destruct left_mode.
  - rewrite cos_plus, sin_plus.
    replace ((d * cos t - l1 * (cos t * cos a - sin t * sin a)) ^ 2
             + (d * sin t - l1 * (sin t * cos a + cos t * sin a)) ^ 2)
      with (d ^ 2 * (sin t * sin t + cos t * cos t)
            + l1 ^ 2 * ((sin t * sin t + cos t * cos t) * (sin a * sin a + cos a * cos a))
            - 2 * l1 * d * cos a * (sin t * sin t + cos t * cos t)) by ring.
    rewrite Ht, Ha, Hcos. lra.
  - rewrite cos_minus, sin_minus.
    replace ((d * cos t - l1 * (cos t * cos a + sin t * sin a)) ^ 2
             + (d * sin t - l1 * (sin t * cos a - cos t * sin a)) ^ 2)
      with (d ^ 2 * (sin t * sin t + cos t * cos t)
            + l1 ^ 2 * ((sin t * sin t + cos t * cos t) * (sin a * sin a + cos a * cos a))
            - 2 * l1 * d * cos a * (sin t * sin t + cos t * cos t)) by ring.
    rewrite Ht, Ha, Hcos. lra.
Qed.

(** * Further properties of the solver *)

(** ** Lengths the caller never validated *)








(** ** The solved pose closes the triangle *)








(** ** Where the choice of hand matters *)





(** ** Mirror symmetry *)







(** * Further properties of the path validator *)







(** * The animation and the canvas *)

Section Animation.

Variables (L1 L2 : R) (is_left : bool).












End Animation.

(** ** One request *)









(** * The session as a whole *)




Section Session.

Variable py_float : string -> option R.



End Session.

(** ** Answers to the movement dialog *)

(** Splitting and joining again gives the text back. *)
Lemma split_on_nonempty (sep : ascii) (t : string) : split_on sep t <> [].
Proof.
  destruct t as [| c t]; cbn; [discriminate |].
  destruct (Ascii.eqb c sep); [discriminate |].
  destruct (split_on sep t); discriminate.
Qed.

Lemma split_on_join (sep : ascii) (t : string) :
  String.concat (String sep EmptyString) (split_on sep t) = t.
Proof.
  induction t as [| c t IH]; [reflexivity |].
  cbn [split_on]. pose proof (split_on_nonempty sep t) as Hne.
  destruct (Ascii.eqb c sep) eqn:Ec.
  - apply Ascii.eqb_eq in Ec. subst c.
    destruct (split_on sep t) as [| p ps]; [contradiction |].
    rewrite <- IH. reflexivity.
  - destruct (split_on sep t) as [| p ps]; [contradiction |].
    rewrite <- IH. destruct ps as [| p' ps]; reflexivity.
Qed.

Lemma split_on_no_separator (sep : ascii) (t : string) :
  (forall n, String.get n t <> Some sep) -> split_on sep t = [t].
Proof.
  induction t as [| c t IH]; intros Hno; [reflexivity |].
  cbn [split_on].
  assert (Hc : Ascii.eqb c sep = false).
  { apply Ascii.eqb_neq. intros ->. now apply (Hno 0%nat). }
  rewrite Hc, IH; [reflexivity |].
  intros n. apply (Hno (S n)).
Qed.

(** X14.  An answer without a comma is not handled evenly: if the text is
    a number, [parts[1]] raises an [IndexError] that nothing catches and
    [main] dies there, the session as it was; if the text is not a number,
    the [ValueError] of [float] is caught, the format message is shown and
    the loop goes on with the next answer. *)
Theorem lone_field_answer (py_float : string -> option R)
  (L1 L2 : R) (is_left : bool) (t : string) (answers : list (option string))
  (s : session) (log : list report)
  (Hne : t <> EmptyString)
  (Hno : forall n, String.get n t <> Some ","%char) :
  (forall v, py_float t = Some v ->
             movement_loop py_float L1 L2 is_left (Some t :: answers) s log
             = Crashed IndexError s log)
  /\ (py_float t = None ->
      movement_loop py_float L1 L2 is_left (Some t :: answers) s log
      = movement_loop py_float L1 L2 is_left answers s (log ++ [IncorrectFormat])).
Proof.
  apply String.eqb_neq in Hne.
  split; [intros v Hv | intros Hv]; cbn [movement_loop]; rewrite Hne;
    unfold parse_target; rewrite (split_on_no_separator _ _ Hno);
    cbn [nth_error]; rewrite Hv; reflexivity.
Qed.

Lemma lone_field_answer_witness :
  let t := String "7" EmptyString in
  let s := mkSession 2 0 [] in
  t <> EmptyString /\ (forall n, String.get n t <> Some ","%char) /\
  movement_loop (fun _ => Some 1) 1 2 true [Some t] s [] = Crashed IndexError s [].
Proof.
  intros t s.
  assert (Hne : t <> EmptyString) by discriminate.
  assert (Hno : forall n, String.get n t <> Some ","%char)
    by (intros [| [| n]]; cbn; discriminate).
  split; [exact Hne | split; [exact Hno |]].
  exact (proj1 (lone_field_answer (fun _ => Some 1) 1 2 true t [] s [] Hne Hno)
           1 eq_refl).
Defined.



(** ** What holds as long as there is a session *)






(** * Scale and sampling *)









